(** * Employee-NLQ: the Dashboard client and the engine it talks to

    The repository ships the React client ([Dashboard.tsx]); the FastAPI
    engine behind it is described by the specification only.  The first
    part embeds the client functions as they are written; the second part
    holds the engine components that the specification describes and that
    are not among the sources, each marked as modelled from the
    specification. *)

From Stdlib Require Import ZArith Ascii String Lia.
From stdpp Require Import base option list sorting strings gmap.

Local Open Scope Z_scope.

(** ** JavaScript strings

    A string is the sequence of its code units; the model covers the code
    units below 256 (Latin-1), one [ascii] each.  On that range
    [toLowerCase], [trim], [startsWith] and a prefix regular expression with
    the [i] flag behave as defined here. *)
Module JsString.

Definition code (c : ascii) : nat := nat_of_ascii c.

Definition in_range (lo hi n : nat) : bool :=
  Nat.leb lo n && Nat.leb n hi.

(** [A-Z], and the accented capitals U+00C0..U+00DE without the
    multiplication sign U+00D7. *)
Definition is_upper (c : ascii) : bool :=
  in_range 65 90 (code c)
  || (in_range 192 222 (code c) && negb (Nat.eqb (code c) 215)).

(** [a-z], and U+00E0..U+00FE without the division sign U+00F7.  The
    upper-case forms of U+00B5, U+00DF and U+00FF lie outside the range or
    are longer than one unit; those units stay as they are. *)
Definition is_lower (c : ascii) : bool :=
  in_range 97 122 (code c)
  || (in_range 224 254 (code c) && negb (Nat.eqb (code c) 247)).

Definition lowerChar (c : ascii) : ascii :=
  if is_upper c then ascii_of_nat (code c + 32) else c.

Definition upperChar (c : ascii) : ascii :=
  if is_lower c then ascii_of_nat (code c - 32) else c.

(** [String.prototype.toLowerCase]. *)
Fixpoint toLowerCase (s : string) : string :=
  match s with
  | EmptyString => EmptyString
  | String c s' => String (lowerChar c) (toLowerCase s')
  end.

(** [String.prototype.startsWith]. *)
Fixpoint startsWith (s p : string) {struct p} : bool :=
  match p, s with
  | EmptyString, _ => true
  | String _ _, EmptyString => false
  | String a p', String b s' => Ascii.eqb a b && startsWith s' p'
  end.

(** White space and line terminators below 256: TAB, LF, VT, FF, CR,
    SPACE and NO-BREAK SPACE. *)
Definition isWhiteSpace (c : ascii) : bool :=
  in_range 9 13 (code c) || Nat.eqb (code c) 32 || Nat.eqb (code c) 160.

Fixpoint trimStart (s : string) : string :=
  match s with
  | EmptyString => EmptyString
  | String c s' => if isWhiteSpace c then trimStart s' else s
  end.

Fixpoint trimEnd (s : string) : string :=
  match s with
  | EmptyString => EmptyString
  | String c s' =>
      match trimEnd s' with
      | EmptyString => if isWhiteSpace c then EmptyString else String c EmptyString
      | t => String c t
      end
  end.

(** [String.prototype.trim]. *)
Definition trim (s : string) : string := trimEnd (trimStart s).

(** A JavaScript string is falsy exactly when it is empty. *)
Definition truthy (s : string) : bool :=
  match s with EmptyString => false | String _ _ => true end.

(** Matching a pattern of literal characters at the start of the input
    under the [i] flag: two code units match when their canonical
    (upper-case) forms agree.  The result is what follows the match. *)
Fixpoint matchStartIgnoreCase (pat s : string) {struct pat} : option string :=
  match pat, s with
  | EmptyString, _ => Some s
  | String _ _, EmptyString => None
  | String a pat', String b s' =>
      if Ascii.eqb (upperChar a) (upperChar b)
      then matchStartIgnoreCase pat' s' else None
  end.

(** [s.replace(/^pat/i, rep)] for a literal [pat] and a replacement
    without dollar patterns: the input is returned when nothing matches. *)
Definition replaceStartIgnoreCase (pat rep s : string) : string :=
  match matchStartIgnoreCase pat s with
  | Some rest => rep +:+ rest
  | None => s
  end.

Fixpoint allWhiteSpace (s : string) : bool :=
  match s with
  | EmptyString => true
  | String c s' => isWhiteSpace c && allWhiteSpace s'
  end.

End JsString.

(** ** The Dashboard component *)
Module Dashboard.
Import JsString.

(** [normalizeConnectionString]: postgres URLs without a driver get the
    psycopg v3 driver; everything else is returned as it is. *)
Definition normalizeConnectionString (input : string) : string :=
  let lower := toLowerCase input in
  if startsWith lower "postgresql+" then input
  else if startsWith lower "postgres+" then input
  else if startsWith lower "postgresql://" then
    replaceStartIgnoreCase "postgresql://" "postgresql+psycopg://" input
  else if startsWith lower "postgres://" then
    replaceStartIgnoreCase "postgres://" "postgresql+psycopg://" input
  else input.

(** *** Payloads exchanged with the server *)

Record HistoryRecord := {
  hr_query : string;
  hr_type : string;
  hr_timestamp : Z
}.

Record QueryResponse := {
  qr_query : string;
  qr_query_type : string;
  qr_results : list (list (string * string));
  qr_metrics : list (string * string);
  qr_sources : option (list (list (string * string)))
}.

Record JobStatusResponse := {
  job_id : string;
  status : string;
  processed : Z;
  total : Z;
  message : option string
}.

(** The body of [POST /api/query]. *)
Record QueryRequest := {
  connection_string : string;
  query : string;
  top_k : Z
}.

Inductive Request :=
| PostQuery (body : QueryRequest)
| GetHistory (conn : string)
| GetJobStatus (job : string).

(** The server is not part of the sources: it is a state of some type
    [S] and the two endpoints [handleRunQuery] calls.  A failed call
    yields the error detail the [catch] branch displays; [fetchHistory]
    swallows its errors and yields [null]. *)
Record Server (S : Type) := {
  post_query : S -> QueryRequest -> S * (QueryResponse + string);
  get_history : S -> string -> S * option (list HistoryRecord)
}.
Arguments post_query {S}.
Arguments get_history {S}.

(** *** Component state (the [useState] cells the handlers touch) *)

Record State := {
  connectionString : string;
  queryText : string;
  queryLoading : bool;
  queryResult : option QueryResponse;
  queryError : option string;
  history : list HistoryRecord;
  jobStatus : option JobStatusResponse
}.

Definition setQueryLoading (b : bool) (d : State) : State :=
  {| connectionString := connectionString d; queryText := queryText d;
     queryLoading := b; queryResult := queryResult d;
     queryError := queryError d; history := history d;
     jobStatus := jobStatus d |}.

Definition setQueryResult (r : option QueryResponse) (d : State) : State :=
  {| connectionString := connectionString d; queryText := queryText d;
     queryLoading := queryLoading d; queryResult := r;
     queryError := queryError d; history := history d;
     jobStatus := jobStatus d |}.

Definition setQueryError (e : option string) (d : State) : State :=
  {| connectionString := connectionString d; queryText := queryText d;
     queryLoading := queryLoading d; queryResult := queryResult d;
     queryError := e; history := history d;
     jobStatus := jobStatus d |}.

Definition setHistory (h : list HistoryRecord) (d : State) : State :=
  {| connectionString := connectionString d; queryText := queryText d;
     queryLoading := queryLoading d; queryResult := queryResult d;
     queryError := queryError d; history := h;
     jobStatus := jobStatus d |}.

(** [handleRunQuery]: the new component state, the new server state and
    the requests sent, in order. *)
Definition handleRunQuery {S : Type} (srv : Server S) (d : State) (sv : S)
  : State * S * list Request :=
  if negb (truthy (connectionString d)) then
    (setQueryError (Some "Connect to a database first.") d, sv, [])
  else if negb (truthy (trim (queryText d))) then
    (setQueryError (Some "Please enter a natural language query.") d, sv, [])
  else
    let d1 := setQueryError None (setQueryLoading true d) in
    let normalized := normalizeConnectionString (connectionString d) in
    let body := {| connection_string := normalized;
                   query := trim (queryText d);
                   top_k := 10 |} in
    match post_query srv sv body with
    | (sv1, inl data) =>
        let d2 := setQueryResult (Some data) d1 in
        let '(sv2, records) := get_history srv sv1 normalized in
        let d3 := match records with
                  | Some rs => setHistory rs d2
                  | None => d2
                  end in
        (setQueryLoading false d3, sv2, [PostQuery body; GetHistory normalized])
    | (sv1, inr detail) =>
        (setQueryLoading false (setQueryError (Some detail) d1), sv1,
         [PostQuery body])
    end.

(** *** The job-status polling effect *)

(** What [window.setInterval] was asked for: the job whose status each
    tick fetches (captured from [jobStatus] when the effect ran) and the
    delay. *)
Record Interval := {
  poll_job : string;
  period_ms : Z
}.

Definition isTerminal (j : JobStatusResponse) : bool :=
  String.eqb (status j) "completed" || String.eqb (status j) "failed".

(** The effect body run for a value of [jobStatus]: the interval it
    installs, if any. *)
Definition pollingEffect (js : option JobStatusResponse) : option Interval :=
  match js with
  | None => None
  | Some j =>
      if isTerminal j then None
      else Some {| poll_job := job_id j; period_ms := 2000 |}
  end.

(** The poller: the [jobStatus] cell, the interval now installed, the
    status fetches still awaiting their response (the callback is
    [async]; a tick does not wait for the previous fetch), and every
    status request sent so far, latest first. *)
Record Poller := {
  p_jobStatus : option JobStatusResponse;
  p_interval : option Interval;
  p_inflight : list string;
  p_sent : list string;
  p_mounted : bool
}.

Inductive Event :=
| Tick
| Respond (n : nat) (r : option JobStatusResponse)
| SetJobStatus (js : option JobStatusResponse)
| Unmount.

(** [setJobStatus v]: the cell changes, the previous effect is cleaned up
    ([clearInterval]) and the effect runs again for [v]. *)
Definition applySetJobStatus (v : option JobStatusResponse) (p : Poller) : Poller :=
  if p_mounted p then
    {| p_jobStatus := v; p_interval := pollingEffect v;
       p_inflight := p_inflight p; p_sent := p_sent p; p_mounted := true |}
  else p.

Definition step (p : Poller) (e : Event) : Poller :=
  match e with
  | Tick =>
      match p_interval p with
      | Some i =>
          {| p_jobStatus := p_jobStatus p; p_interval := p_interval p;
             p_inflight := p_inflight p ++ [poll_job i];
             p_sent := poll_job i :: p_sent p; p_mounted := p_mounted p |}
      | None => p
      end
  | Respond n r =>
      match p_inflight p !! n with
      | Some _ =>
          let p' := {| p_jobStatus := p_jobStatus p; p_interval := p_interval p;
                       p_inflight := delete n (p_inflight p);
                       p_sent := p_sent p; p_mounted := p_mounted p |} in
          match r with
          | Some next => applySetJobStatus (Some next) p'
          | None => p'
          end
      | None => p
      end
  | SetJobStatus v => applySetJobStatus v p
  | Unmount =>
      {| p_jobStatus := p_jobStatus p; p_interval := None;
         p_inflight := p_inflight p; p_sent := p_sent p; p_mounted := false |}
  end.

Definition run (p : Poller) (es : list Event) : Poller := foldl step p es.

(** The component as mounted: [jobStatus] starts as [null]. *)
Definition mount : Poller :=
  {| p_jobStatus := None; p_interval := pollingEffect None;
     p_inflight := []; p_sent := []; p_mounted := true |}.



(** The values of [jobStatus] for which the effect returns before
    [setInterval]: [null], and a status [completed] or [failed]. *)
Definition settled (js : option JobStatusResponse) : bool :=
  match js with
  | None => true
  | Some j => isTerminal j
  end.



(** Sample values for the examples below. *)
Definition sampleStatus (st : string) (done : Z) : JobStatusResponse :=
  {| job_id := "j1"; status := st; processed := done; total := 2; message := None |}.

Definition sampleServer : Server nat :=
  {| post_query := fun n _ => (S n, inr "Service unavailable");
     get_history := fun n _ => (n, None) |}.

Definition sampleState (conn text : string) : State :=
  {| connectionString := conn; queryText := text; queryLoading := false;
     queryResult := None; queryError := None; history := [];
     jobStatus := None |}.

(** Two connection strings that differ only in the case of the URL
    scheme: the same text from the [://] on, and schemes that are equal
    once their letters are lower-cased. *)
Definition schemeCaseVariants (a b : string) : Prop :=
  exists sa sb rest,
    a = sa +:+ "://" +:+ rest /\ b = sb +:+ "://" +:+ rest
    /\ toLowerCase sa = toLowerCase sb.

(** Two connection strings that differ only in surrounding white space. *)
Definition whiteSpaceVariants (a b : string) : Prop := trim a = trim b.

End Dashboard.

(** ** Engine components described by the specification

    The ingestion pipeline and the vector store run in the backend
    (document_processor.py, vector_store.py), which is not among the
    sources.  What follows is written from the specification's component
    design and data model. *)
Module Engine.

(** *** Ingestion jobs *)

(** Modelled from the spec: the four statuses of an IngestionJob; the
    job module is missing from the sources. *)
Inductive JobStatus := Pending | InProgress | Completed | Failed.

(** Modelled from the spec: the order the data model gives the job
    statuses, pending -> in_progress -> {completed, failed}; the job
    module itself is missing from the sources. *)
Definition status_le (a b : JobStatus) : bool :=
  match a, b with
  | Pending, _ => true
  | InProgress, (InProgress | Completed | Failed) => true
  | Completed, Completed => true
  | Failed, Failed => true
  | _, _ => false
  end.

(** Modelled from the spec: a file of a submitted batch, by name and
    extension; its content goes to extractors outside the model. *)
Record File := {
  file_name : string;
  file_ext : string
}.

(** Modelled from the spec: the IngestionJob of the data model
    (identifier, owning connection, status, processed and total counts,
    optional error message, per-file metadata); its declaration is missing
    from the sources. *)
Record IngestionJob := {
  ij_id : string;
  ij_conn : string;
  ij_status : JobStatus;
  ij_processed : nat;
  ij_total : nat;
  ij_message : option string;
  ij_skipped : list string
}.

(** Modelled from the spec: the pipeline worker's view of a job, the
    files not yet begun and the files being processed (several may be in
    progress at once); the worker is missing from the sources. *)
Record Pipeline := {
  job : IngestionJob;
  waiting : list File;
  running : list File
}.

(** Modelled from the spec: how a file ends, chunked and embedded, or
    skipped (empty or unparseable) and recorded in the job's metadata. *)
Inductive Outcome :=
| Embedded (chunks : nat)
| Skipped (why : string).

(** Modelled from the spec: what the workers of a job do, in any
    interleaving: begin the next file, finish the [n]-th file in progress,
    or hit a job-level fault. *)
Inductive WorkerEvent :=
| Begin
| Finish (n : nat) (o : Outcome)
| Fault (msg : string).

(** Modelled from the spec: Ingest of a file batch, missing from the
    sources.  The supported-format check comes first; the job is created
    pending over the files that pass it, with nothing processed. *)
Definition submit (supported : string -> bool) (id conn : string)
  (files : list File) : Pipeline * list File :=
  let ok := filter (fun f => supported (file_ext f) = true) files in
  let rejected := filter (fun f => supported (file_ext f) = false) files in
  ({| job := {| ij_id := id; ij_conn := conn; ij_status := Pending;
                ij_processed := 0; ij_total := length ok;
                ij_message := None; ij_skipped := [] |};
      waiting := ok; running := [] |}, rejected).

Definition with_status (s : JobStatus) (j : IngestionJob) : IngestionJob :=
  {| ij_id := ij_id j; ij_conn := ij_conn j; ij_status := s;
     ij_processed := ij_processed j; ij_total := ij_total j;
     ij_message := ij_message j; ij_skipped := ij_skipped j |}.

Definition live (s : JobStatus) : bool :=
  match s with Pending | InProgress => true | _ => false end.

(** Modelled from the spec: one step of the pipeline worker, missing from
    the sources.  A file that begins processing moves the job to
    in_progress; each file that completes, stored or skipped, adds one to
    processed in one atomic step, and the job is completed once no file is
    left; a job-level fault makes it failed, after which no work is taken.
    An event that does not apply leaves the job as it is. *)
Definition work (p : Pipeline) (e : WorkerEvent) : Pipeline :=
  match e with
  | Begin =>
      match waiting p with
      | f :: rest =>
          if live (ij_status (job p)) then
            {| job := with_status InProgress (job p);
               waiting := rest; running := running p ++ [f] |}
          else p
      | [] => p
      end
  | Finish n o =>
      match ij_status (job p), running p !! n with
      | InProgress, Some f =>
          let left := delete n (running p) in
          let j := job p in
          {| job := {| ij_id := ij_id j; ij_conn := ij_conn j;
                       ij_status :=
                         match waiting p, left with
                         | [], [] => Completed
                         | _, _ => InProgress
                         end;
                       ij_processed := S (ij_processed j);
                       ij_total := ij_total j;
                       ij_message := ij_message j;
                       ij_skipped :=
                         match o with
                         | Skipped _ => file_name f :: ij_skipped j
                         | Embedded _ => ij_skipped j
                         end |};
             waiting := waiting p; running := left |}
      | _, _ => p
      end
  | Fault msg =>
      if live (ij_status (job p)) then
        let j := job p in
        {| job := {| ij_id := ij_id j; ij_conn := ij_conn j;
                     ij_status := Failed;
                     ij_processed := ij_processed j; ij_total := ij_total j;
                     ij_message := Some msg; ij_skipped := ij_skipped j |};
           waiting := waiting p; running := running p |}
      else p
  end.

Definition works (p : Pipeline) (es : list WorkerEvent) : Pipeline :=
  foldl work p es.

(** Every file of the job is waiting, running or counted as processed,
    and a completed job has no file left. *)
Definition accounted (p : Pipeline) : Prop :=
  (ij_processed (job p) + length (waiting p) + length (running p)
   = ij_total (job p))%nat
  /\ (ij_status (job p) = Completed -> waiting p = [] /\ running p = []).

(** *** Vector store *)

Definition Embedding := list Z.

(** Modelled from the spec: the DocumentChunk of the data model; its
    declaration is missing from the sources. *)
Record DocumentChunk := {
  chunk_id : string;
  document_id : string;
  source_job : string;
  ordinal : nat;
  content : string;
  embedding : Embedding
}.

(** Inner product, one of the two measures the specification allows. *)
Fixpoint dot (u v : Embedding) : Z :=
  match u, v with
  | a :: u', b :: v' => a * b + dot u' v'
  | _, _ => 0
  end.

(** A candidate of a search: its similarity to the query, its position
    in creation order, and the chunk. *)
Record Scored := {
  sc_score : Z;
  sc_pos : nat;
  sc_chunk : DocumentChunk
}.

(** [a] is returned before [b]: higher similarity, or the same and
    created earlier. *)
Definition before (a b : Scored) : Prop :=
  sc_score b < sc_score a \/ (sc_score a = sc_score b /\ (sc_pos a < sc_pos b)%nat).

(** [a] was created before [b]. *)
Definition created_before (a b : Scored) : Prop := (sc_pos a < sc_pos b)%nat.

(** Modelled from the spec: ranking for search, missing from the
    sources.  A candidate goes behind every candidate already ranked that
    scores at least as much, so handing candidates over in creation order
    keeps earlier chunks first among equals. *)
Fixpoint insert_ranked (x : Scored) (l : list Scored) : list Scored :=
  match l with
  | [] => [x]
  | y :: l' =>
      if sc_score x <=? sc_score y then y :: insert_ranked x l'
      else x :: y :: l'
  end.

(** Modelled from the spec: the candidates ranked one after the other,
    in the order given. *)
Definition rank_all (xs : list Scored) : list Scored :=
  foldl (fun acc x => insert_ranked x acc) [] xs.

Definition passes (flt : option (DocumentChunk -> bool)) (c : DocumentChunk) : bool :=
  match flt with
  | Some f => f c
  | None => true
  end.

Section Search.

Variable similarity : Embedding -> Embedding -> Z.

(** Modelled from the spec: each stored chunk with its similarity to
    the query under the one measure and its place in creation order. *)
Fixpoint score_from (i : nat) (q : Embedding) (cs : list DocumentChunk) : list Scored :=
  match cs with
  | [] => []
  | c :: cs' =>
      {| sc_score := similarity q (embedding c); sc_pos := i; sc_chunk := c |}
      :: score_from (S i) q cs'
  end.

(** Modelled from the spec: the scored chunks that satisfy the optional
    filter, still in creation order. *)
Definition candidates (part : list DocumentChunk) (q : Embedding)
  (flt : option (DocumentChunk -> bool)) : list Scored :=
  filter (fun s => passes flt (sc_chunk s) = true) (score_from 0 q part).

(** Modelled from the spec: the store holds, per connection, the chunks
    in creation order; the store module is missing from the sources. *)
Definition partition (store : gmap string (list DocumentChunk)) (conn : string)
  : list DocumentChunk :=
  default [] (store !! conn).

(** Modelled from the spec: search(queryEmbedding, k, filter?) of the
    vector store, missing from the sources: the candidates that pass the
    filter, ranked, cut to the first k. *)
Definition search_ranked (store : gmap string (list DocumentChunk)) (conn : string)
  (q : Embedding) (k : nat) (flt : option (DocumentChunk -> bool)) : list Scored :=
  take k (rank_all (candidates (partition store conn) q flt)).

(** Modelled from the spec: what search hands back, missing from the
    sources: the chunks of the ranked candidates, a sequence that is empty
    when nothing is stored or passes; there is no failing outcome. *)
Definition search (store : gmap string (list DocumentChunk)) (conn : string)
  (q : Embedding) (k : nat) (flt : option (DocumentChunk -> bool))
  : list DocumentChunk :=
  map sc_chunk (search_ranked store conn q k flt).

End Search.

(** Modelled from the spec: upsert(chunks), missing from the sources: a
    chunk replaces the stored chunk with its identifier, where that one
    stands, and is appended when there is none. *)
Fixpoint put_chunk (c : DocumentChunk) (part : list DocumentChunk) : list DocumentChunk :=
  match part with
  | [] => [c]
  | d :: part' =>
      if String.eqb (chunk_id d) (chunk_id c) then c :: part'
      else d :: put_chunk c part'
  end.

Definition upsert (store : gmap string (list DocumentChunk)) (conn : string)
  (chunks : list DocumentChunk) : gmap string (list DocumentChunk) :=
  <[conn := foldl (fun part c => put_chunk c part) (default [] (store !! conn)) chunks]> store.

(** Sample values for the examples below. *)
Definition sampleChunk (id : string) (e : Embedding) : DocumentChunk :=
  {| chunk_id := id; document_id := "doc"; source_job := "j1";
     ordinal := 0; content := id; embedding := e |}.

Definition sampleStore : gmap string (list DocumentChunk) :=
  upsert ∅ "conn"
    [sampleChunk "a" [1; 0]; sampleChunk "b" [0; 1];
     sampleChunk "c" [1; 0]; sampleChunk "d" [2; 0]].

End Engine.

(** ** The rest of the Dashboard: connection, schema and upload handlers *)
Module Page.
Import JsString Dashboard.

Record TableSchema := {
  ts_name : string;
  ts_columns : list string;
  ts_types : option (list (string * string));
  ts_sample_rows : option (list (list (string * string)))
}.

Record SchemaPayload := {
  sp_tables : list TableSchema;
  sp_relationships : list (list (string * string));
  sp_synonyms : list (string * list string)
}.

(** What [POST /api/ingest/database] answers: [data.schema] and the
    optional [data.message]. *)
Record ConnectData := {
  cd_schema : SchemaPayload;
  cd_message : option string
}.

(** What [POST /api/ingest/documents] answers. *)
Record UploadData := {
  ud_job_id : string;
  ud_status : string;
  ud_processed : Z;
  ud_total_files : Z
}.

(** The calls the handlers make, with what identifies them: the connection
    string sent, the names of the files appended to the form data. *)
Inductive Call :=
| PostDatabase (conn : string)
| GetSchema (conn : string)
| PostDocuments (files : list string) (conn : string)
| Sent (r : Request).

(** The server seen from these handlers: the two endpoints of [Server]
    and the three more they call.  An error is the detail shown to the
    user. *)
Record Backend (S : Type) := {
  api : Server S;
  post_database : S -> string -> S * (ConnectData + string);
  get_schema : S -> string -> S * (SchemaPayload + string);
  post_documents : S -> list string -> string -> S * (UploadData + string)
}.
Arguments api {S}.
Arguments post_database {S}.
Arguments get_schema {S}.
Arguments post_documents {S}.

(** The [useState] cells of the component: those of [State] and the
    cells of the connection and upload panels. *)
Record Cells := {
  panel : State;
  connectionStatus : option string;
  connectionError : option string;
  schema : option SchemaPayload;
  schemaLoading : bool;
  uploading : bool
}.

Definition setConnectionString (v : string) (d : State) : State :=
  {| connectionString := v; queryText := queryText d;
     queryLoading := queryLoading d; queryResult := queryResult d;
     queryError := queryError d; history := history d;
     jobStatus := jobStatus d |}.


Definition onPanel (f : State -> State) (c : Cells) : Cells :=
  {| panel := f (panel c); connectionStatus := connectionStatus c;
     connectionError := connectionError c; schema := schema c;
     schemaLoading := schemaLoading c; uploading := uploading c |}.

Definition setConnectionStatus (v : option string) (c : Cells) : Cells :=
  {| panel := panel c; connectionStatus := v;
     connectionError := connectionError c; schema := schema c;
     schemaLoading := schemaLoading c; uploading := uploading c |}.

Definition setConnectionError (v : option string) (c : Cells) : Cells :=
  {| panel := panel c; connectionStatus := connectionStatus c;
     connectionError := v; schema := schema c;
     schemaLoading := schemaLoading c; uploading := uploading c |}.

Definition setSchema (v : option SchemaPayload) (c : Cells) : Cells :=
  {| panel := panel c; connectionStatus := connectionStatus c;
     connectionError := connectionError c; schema := v;
     schemaLoading := schemaLoading c; uploading := uploading c |}.

Definition setSchemaLoading (v : bool) (c : Cells) : Cells :=
  {| panel := panel c; connectionStatus := connectionStatus c;
     connectionError := connectionError c; schema := schema c;
     schemaLoading := v; uploading := uploading c |}.


(** [if (records) setHistory(records)]: what the answer to a history
    fetch does to the cells. *)
Definition applyHistory (records : option (list HistoryRecord)) (c : Cells) : Cells :=
  match records with
  | Some rs => onPanel (setHistory rs) c
  | None => c
  end.

(** When [handleConnect] changes the [connectionString] cell, the effect
    on that cell fetches the history while the POST is still pending.  The
    server may take that fetch before the POST, after it, or after the
    history fetch of the handler itself; and its answer may reach the
    client before or after the answer to the handler's own fetch. *)
Inductive EffectTurn := BeforePost | AfterPost | AfterOwnFetch.

Record Timing := {
  effectTurn : EffectTurn;
  effectAnswerLast : bool
}.

Definition servedEarly (t : Timing) : bool :=
  match effectTurn t with BeforePost => true | _ => false end.

Definition servedBetween (t : Timing) : bool :=
  match effectTurn t with AfterPost => true | _ => false end.

Definition servedLate (t : Timing) : bool :=
  match effectTurn t with AfterOwnFetch => true | _ => false end.

(** The history fetch of the effect, when it is the server's turn to take
    it ([on]): the new server state and what the answer does to the
    cells. *)
Definition effectFetch {S : Type} (b : Backend S) (on : bool) (conn : string)
  (sv : S) : S * (Cells -> Cells) :=
  if on then
    let '(sv', records) := get_history (api b) sv conn in
    (sv', applyHistory records)
  else (sv, fun c => c).

(** [handleConnect], with the history effect that its own
    [setConnectionString] sets off: the cells, the server state and the
    requests in the order the client sends them (the POST is sent before
    the handler yields, the effect's fetch after the render that follows,
    the handler's own fetch after the POST was answered).  The effect that
    writes [localStorage] is [connectionEffect]. *)
Definition handleConnect {S : Type} (b : Backend S) (t : Timing) (c : Cells)
  (sv : S) : Cells * S * list Call :=
  let cs := connectionString (panel c) in
  if negb (truthy (trim cs)) then
    (setConnectionError (Some "Please provide a database connection string.") c,
     sv, [])
  else
    let c1 := setConnectionError None
                (setConnectionStatus None (setSchemaLoading true c)) in
    let normalized := normalizeConnectionString (trim cs) in
    let changed := negb (String.eqb normalized cs) in
    let c2 := if changed then onPanel (setConnectionString normalized) c1
              else c1 in
    let effectCalls := if changed then [Sent (GetHistory normalized)] else [] in
    let '(sv0, h0) := effectFetch b (changed && servedEarly t) normalized sv in
    match post_database b sv0 normalized with
    | (sv1, inl data) =>
        let c3 := setConnectionStatus
                    (Some (default "Database connected." (cd_message data)))
                    (setSchema (Some (cd_schema data)) c2) in
        let '(sv2, h1) := effectFetch b (changed && servedBetween t) normalized sv1 in
        let '(sv3, records) := get_history (api b) sv2 normalized in
        let '(sv4, h2) := effectFetch b (changed && servedLate t) normalized sv3 in
        let c4 := if effectAnswerLast t
                  then h2 (h1 (h0 (applyHistory records c3)))
                  else applyHistory records (h2 (h1 (h0 c3))) in
        (setSchemaLoading false c4, sv4,
         PostDatabase normalized :: effectCalls ++ [Sent (GetHistory normalized)])
    | (sv1, inr detail) =>
        let '(sv2, h1) :=
          effectFetch b (changed && negb (servedEarly t)) normalized sv1 in
        (setSchemaLoading false
           (setConnectionError (Some detail) (h1 (h0 c2))), sv2,
         PostDatabase normalized :: effectCalls)
    end.

(** A change of the cells that touches nothing but the history. *)
Definition onlyHistory (h : Cells -> Cells) : Prop :=
  forall c,
    connectionString (panel (h c)) = connectionString (panel c)
    /\ queryText (panel (h c)) = queryText (panel c)
    /\ connectionStatus (h c) = connectionStatus c
    /\ connectionError (h c) = connectionError c
    /\ schema (h c) = schema c
    /\ schemaLoading (h c) = schemaLoading c.

(** [handleRefreshSchema]. *)
Definition handleRefreshSchema {S : Type} (b : Backend S) (c : Cells) (sv : S)
  : Cells * S * list Call :=
  let cs := connectionString (panel c) in
  if negb (truthy cs) then (c, sv, [])
  else
    let c1 := setSchemaLoading true c in
    match get_schema b sv cs with
    | (sv1, inl data) =>
        (setSchemaLoading false (setSchema (Some data) c1), sv1, [GetSchema cs])
    | (sv1, inr detail) =>
        (setSchemaLoading false (setConnectionError (Some detail) c1), sv1,
         [GetSchema cs])
    end.


(** [handleRunQuery] on the whole component: it reads and writes the
    cells of [State] only. *)
Definition runQuery {S : Type} (b : Backend S) (c : Cells) (sv : S)
  : Cells * S * list Call :=
  let '(d, sv', rs) := handleRunQuery (api b) (panel c) sv in
  (onPanel (fun _ => d) c, sv', map Sent rs).

(** The input is a postgres URL without a driver, whatever the case of
    its scheme: one of the two prefix tests that lead to a rewrite holds. *)
Definition driverless (s : string) : bool :=
  startsWith (toLowerCase s) "postgresql://"
  || startsWith (toLowerCase s) "postgres://".

(** The key under which the connection string is kept in [localStorage]. *)
Definition storageKey : string := "connection_string".

(** The initial value of the [connectionString] cell:
    [localStorage.getItem("connection_string") ?? ""]. *)
Definition initialConnectionString (storage : gmap string string) : string :=
  default "" (storage !! storageKey).

(** The effect on [connectionString] (in a browser): an empty string
    removes the stored item and clears schema and history, any other is
    stored. *)
Definition connectionEffect (c : Cells) (storage : gmap string string)
  : Cells * gmap string string :=
  if negb (truthy (connectionString (panel c))) then
    (onPanel (setHistory []) (setSchema None c), delete storageKey storage)
  else (c, <[storageKey := connectionString (panel c)]> storage).

(** The effect that loads the history of a connection. *)
Definition historyEffect {S : Type} (b : Backend S) (c : Cells) (sv : S)
  : Cells * S * list Call :=
  let cs := connectionString (panel c) in
  if negb (truthy cs) then (c, sv, [])
  else
    let '(sv1, records) := get_history (api b) sv cs in
    (match records with
     | Some rs => onPanel (setHistory rs) c
     | None => c
     end, sv1, [Sent (GetHistory cs)]).

(** The job ids of the statuses an event may write into [jobStatus]. *)
Definition writes (e : Event) : list string :=
  match e with
  | Respond _ (Some j) | SetJobStatus (Some j) => [job_id j]
  | _ => []
  end.

Definition isUpload (e : Event) : bool :=
  match e with
  | SetJobStatus (Some _) => true
  | _ => false
  end.

(** [s.slice(0, n)]. *)
Fixpoint sliceStart (n : nat) (s : string) : string :=
  match n, s with
  | O, _ => EmptyString
  | S _, EmptyString => EmptyString
  | S n', String c s' => String c (sliceStart n' s')
  end.

(** The text of a document match card: the first 320 units of
    [String(source.content ?? "")], and whether the ellipsis follows. *)
Definition contentPreview (content : option string) : string * bool :=
  let text := default "" content in
  (sliceStart 320 text, Nat.ltb 320 (String.length text)).

Definition sampleBackend : Backend nat :=
  {| api := sampleServer;
     post_database := fun n _ => (S n, inr "Connection refused");
     get_schema := fun n _ => (n, inr "Connection refused");
     post_documents := fun n _ _ =>
       (S n, inl {| ud_job_id := "j7"; ud_status := "pending";
                    ud_processed := 0; ud_total_files := 2 |}) |}.

Definition sampleTiming : Timing :=
  {| effectTurn := AfterPost; effectAnswerLast := false |}.

Definition sampleCells (conn text : string) : Cells :=
  {| panel := sampleState conn text; connectionStatus := None;
     connectionError := None; schema := None; schemaLoading := false;
     uploading := false |}.

End Page.

(** ** The App component: colour mode *)
Module App.

Inductive Mode := light | dark.

Inductive Theme := lightTheme | darkTheme.

Definition paletteMode (t : Theme) : Mode :=
  match t with lightTheme => light | darkTheme => dark end.

(** [toggleColorMode]: [setMode(prev => prev === "light" ? "dark" : "light")]. *)
Definition toggleColorMode (prev : Mode) : Mode :=
  match prev with light => dark | dark => light end.

(** [theme]: [mode === "light" ? lightTheme : darkTheme]. *)
Definition theme (m : Mode) : Theme :=
  match m with light => lightTheme | dark => darkTheme end.

Inductive Icon := Brightness4Icon | Brightness7Icon.

(** The icon [AppLayout] shows on the toggle button. *)
Definition toggleIcon (t : Theme) : Icon :=
  match paletteMode t with dark => Brightness7Icon | light => Brightness4Icon end.

End App.

Example search_sample :
  map Engine.chunk_id
    (Engine.search Engine.dot Engine.sampleStore "conn" [1; 0] 3 None)
  = ["d"; "a"; "c"].
Proof. reflexivity. Qed.

Example search_sample_filtered :
  map Engine.chunk_id
    (Engine.search Engine.dot Engine.sampleStore "conn" [1; 0] 3
       (Some (fun c => negb (String.eqb (Engine.chunk_id c) "a"))))
  = ["d"; "c"; "b"].
Proof. reflexivity. Qed.

Example works_sample :
  Engine.ij_status
    (Engine.job
       (Engine.works
          (Engine.submit (fun e => String.eqb e ".pdf") "j1" "conn"
             [{| Engine.file_name := "a.pdf"; Engine.file_ext := ".pdf" |};
              {| Engine.file_name := "b.exe"; Engine.file_ext := ".exe" |};
              {| Engine.file_name := "c.pdf"; Engine.file_ext := ".pdf" |}]).1
          [Engine.Begin; Engine.Begin;
           Engine.Finish 1 (Engine.Embedded 3);
           Engine.Finish 0 (Engine.Skipped "empty")]))
  = Engine.Completed.
Proof. reflexivity. Qed.


Example normalize_plain :
  Dashboard.normalizeConnectionString "postgresql://u:p@h:5432/db"
  = "postgresql+psycopg://u:p@h:5432/db".
Proof. reflexivity. Qed.

Example normalize_mixed_case :
  Dashboard.normalizeConnectionString "PostGres://u:p@H/db"
  = "postgresql+psycopg://u:p@H/db".
Proof. reflexivity. Qed.

Example normalize_with_driver :
  Dashboard.normalizeConnectionString "POSTGRESQL+psycopg://h/db"
  = "POSTGRESQL+psycopg://h/db".
Proof. reflexivity. Qed.

Example trim_blank : JsString.trim "  	 " = "".
Proof. reflexivity. Qed.

Example trim_text : JsString.trim "  a b  " = "a b".
Proof. reflexivity. Qed.

(** * Properties *)

(** ** Strings *)
Section StringFacts.
Import JsString.

Lemma upper_of_lower (c : ascii) : upperChar (lowerChar c) = upperChar c.
Proof. destruct c as [[] [] [] [] [] [] [] []]; reflexivity. Qed.

Lemma lower_of_lower (c : ascii) : lowerChar (lowerChar c) = lowerChar c.
Proof. destruct c as [[] [] [] [] [] [] [] []]; reflexivity. Qed.

Lemma toLowerCase_app (a b : string) :
  toLowerCase (a +:+ b) = toLowerCase a +:+ toLowerCase b.
Proof. induction a as [|c a IH]; simpl; [reflexivity | now rewrite IH]. Qed.

Lemma toLowerCase_idem (s : string) : toLowerCase (toLowerCase s) = toLowerCase s.
Proof.
  induction s as [|c s IH]; simpl; [reflexivity|].
  now rewrite lower_of_lower, IH.
Qed.

Lemma startsWith_app (p rest : string) : startsWith (p +:+ rest) p = true.
Proof.
  induction p as [|c p IH]; simpl; [reflexivity|].
  now rewrite Ascii.eqb_refl, IH.
Qed.

(** A prefix whose lower-case form is the pattern's is matched under the
    [i] flag, and the match ends where the prefix ends. *)
Lemma match_case_variant (pat p rest : string) :
  toLowerCase p = toLowerCase pat ->
  matchStartIgnoreCase pat (p +:+ rest) = Some rest.
Proof.
  revert p. induction pat as [|a pat IH]; intros [|c p] H; simpl in *;
    try discriminate; [reflexivity|].
  injection H as Hc Hp.
  assert (upperChar a = upperChar c) as ->.
  { now rewrite <- (upper_of_lower a), <- (upper_of_lower c), Hc. }
  rewrite Ascii.eqb_refl. now apply IH.
Qed.

Lemma trimStart_blank (s : string) : allWhiteSpace s = true -> trimStart s = "".
Proof.
  induction s as [|c s IH]; simpl; [reflexivity|].
  intros [Hc Hs]%andb_prop. rewrite Hc. now apply IH.
Qed.

Lemma trimStart_keeps_blank (s : string) :
  allWhiteSpace (trimStart s) = true -> allWhiteSpace s = true.
Proof.
  induction s as [|c s IH]; simpl; [reflexivity|].
  destruct (isWhiteSpace c) eqn:Hc; simpl.
  - exact IH.
  - rewrite Hc. discriminate.
Qed.

Lemma trimEnd_empty (s : string) : trimEnd s = "" -> allWhiteSpace s = true.
Proof.
  induction s as [|c s IH]; simpl; [reflexivity|].
  destruct (trimEnd s) eqn:Ht.
  - destruct (isWhiteSpace c); [intros _; now apply IH | discriminate].
  - discriminate.
Qed.

(** The trimmed text is empty exactly when the text is empty or made of
    white space only. *)
Lemma trim_empty_iff (s : string) : trim s = "" <-> allWhiteSpace s = true.
Proof.
  unfold trim. split.
  - intros H. apply trimStart_keeps_blank, trimEnd_empty, H.
  - intros H. now rewrite trimStart_blank.
Qed.

End StringFacts.

(** ** normalizeConnectionString *)
Section Normalize.
Import JsString Dashboard.

Lemma normalize_keeps_psycopg (rest : string) :
  normalizeConnectionString ("postgresql+psycopg://" +:+ rest)
  = "postgresql+psycopg://" +:+ rest.
Proof. reflexivity. Qed.

Lemma normalize_postgresql (p rest : string) :
  toLowerCase p = "postgresql://" ->
  normalizeConnectionString (p +:+ rest) = "postgresql+psycopg://" +:+ rest.
Proof.
  intros H. unfold normalizeConnectionString.
  rewrite toLowerCase_app, H.
  change (startsWith ("postgresql://" +:+ toLowerCase rest) "postgresql+") with false.
  change (startsWith ("postgresql://" +:+ toLowerCase rest) "postgres+") with false.
  rewrite startsWith_app.
  unfold replaceStartIgnoreCase. now rewrite match_case_variant.
Qed.

Lemma normalize_postgres (p rest : string) :
  toLowerCase p = "postgres://" ->
  normalizeConnectionString (p +:+ rest) = "postgresql+psycopg://" +:+ rest.
Proof.
  intros H. unfold normalizeConnectionString.
  rewrite toLowerCase_app, H.
  change (startsWith ("postgres://" +:+ toLowerCase rest) "postgresql+") with false.
  change (startsWith ("postgres://" +:+ toLowerCase rest) "postgres+") with false.
  change (startsWith ("postgres://" +:+ toLowerCase rest) "postgresql://") with false.
  rewrite startsWith_app.
  unfold replaceStartIgnoreCase. now rewrite match_case_variant.
Qed.

End Normalize.

Section NormalizeClaims.
Import JsString Dashboard.

Lemma normalize_cases (s : string) :
  normalizeConnectionString s = s
  \/ exists rest, normalizeConnectionString s = "postgresql+psycopg://" +:+ rest.
Proof.
  unfold normalizeConnectionString, replaceStartIgnoreCase.
  destruct (startsWith (toLowerCase s) "postgresql+"); [now left|].
  destruct (startsWith (toLowerCase s) "postgres+"); [now left|].
  destruct (startsWith (toLowerCase s) "postgresql://").
  { destruct (matchStartIgnoreCase "postgresql://" s) as [rest|]; [right; eauto | now left]. }
  destruct (startsWith (toLowerCase s) "postgres://"); [|now left].
  destruct (matchStartIgnoreCase "postgres://" s) as [rest|]; [right; eauto | now left].
Qed.

(** C9.  [normalizeConnectionString] is idempotent: a string it returns
    unchanged is returned unchanged again, and a string it rewrote begins
    with [postgresql+] and is returned unchanged by the second pass. *)
Theorem normalizeConnectionString_idempotent (s : string) :
  normalizeConnectionString (normalizeConnectionString s)
  = normalizeConnectionString s.
Proof.
  destruct (normalize_cases s) as [H | [rest H]].
  - now rewrite !H.
  - rewrite H. apply normalize_keeps_psycopg.
Qed.

(** The scheme of a postgres URL that names a driver keeps its case, and
    white space in front of a URL hides its scheme from the prefix tests
    ([handleRunQuery] does not trim the connection string): neither kind
    of variant is brought to one string, and the query requests sent for
    two white-space variants carry different connection strings. *)
Lemma normalize_separates_variants :
  ~ (forall a b, schemeCaseVariants a b ->
       normalizeConnectionString a = normalizeConnectionString b)
  /\ ~ (forall a b, whiteSpaceVariants a b ->
       normalizeConnectionString a = normalizeConnectionString b)
  /\ ~ (forall a b text, whiteSpaceVariants a b ->
       (handleRunQuery sampleServer (sampleState a text) 0%nat).2
       = (handleRunQuery sampleServer (sampleState b text) 0%nat).2).
Proof.
  split; [|split]; intros H.
  - specialize (H "POSTGRESQL+psycopg://h/db" "postgresql+psycopg://h/db").
    assert (schemeCaseVariants "POSTGRESQL+psycopg://h/db" "postgresql+psycopg://h/db") as V.
    { exists "POSTGRESQL+psycopg", "postgresql+psycopg", "h/db". now repeat split. }
    specialize (H V). discriminate H.
  - specialize (H " postgres://h/db" "postgres://h/db" eq_refl). discriminate H.
  - specialize (H " postgres://h/db" "postgres://h/db" "staff count" eq_refl).
    vm_compute in H. discriminate H.
Qed.

(** C2 (amended).  Every case variant of the prefix [postgresql://] or
    [postgres://] is rewritten to [postgresql+psycopg://] and what follows
    it is kept as it is, so all case variants of a driverless postgres
    scheme in front of one remainder give one string; [handleRunQuery]
    sends that string as the connection of its query request.  A string
    that already names a driver is returned as it is, the case of its
    scheme included. *)
Theorem normalize_driverless_postgres (p rest : string) :
  toLowerCase p = "postgresql://" \/ toLowerCase p = "postgres://" ->
  normalizeConnectionString (p +:+ rest) = "postgresql+psycopg://" +:+ rest
  /\ (forall (S : Type) (srv : Server S) (d : State) (sv : S),
       connectionString d = p +:+ rest ->
       truthy (trim (queryText d)) = true ->
       exists more,
         (handleRunQuery srv d sv).2
         = PostQuery {| connection_string := "postgresql+psycopg://" +:+ rest;
                        query := trim (queryText d);
                        top_k := 10 |} :: more)
  /\ (forall s,
       startsWith (toLowerCase s) "postgresql+" = true
       \/ startsWith (toLowerCase s) "postgres+" = true ->
       normalizeConnectionString s = s).
Proof.
  intros Hp.
  assert (normalizeConnectionString (p +:+ rest) = "postgresql+psycopg://" +:+ rest) as HN.
  { destruct Hp; [now apply normalize_postgresql | now apply normalize_postgres]. }
  split; [exact HN|]. split.
  - intros S srv d sv Hc Hq. unfold handleRunQuery.
    assert (truthy (connectionString d) = true) as ->.
    { rewrite Hc. destruct p; [destruct Hp; discriminate | reflexivity]. }
    rewrite Hq. simpl. rewrite Hc, HN.
    destruct (post_query srv sv _) as [sv1 [data|detail]]; simpl.
    + destruct (get_history srv sv1 _) as [sv2 records]. simpl. eauto.
    + eauto.
  - intros s Hs. unfold normalizeConnectionString.
    destruct (startsWith (toLowerCase s) "postgresql+"); [reflexivity|].
    destruct Hs as [Hs | ->]; [discriminate | reflexivity].
Qed.

Lemma normalize_driverless_postgres_witness :
  normalizeConnectionString ("PostgreSQL://" +:+ "u:p@h:5432/db")
  = "postgresql+psycopg://" +:+ "u:p@h:5432/db".
Proof.
  apply (normalize_driverless_postgres "PostgreSQL://" "u:p@h:5432/db").
  left. reflexivity.
Defined.

End NormalizeClaims.

(** ** The polling effect *)
Section Polling.
Import Dashboard.

Lemma pollingEffect_settled (js : option JobStatusResponse) :
  settled js = true -> pollingEffect js = None.
Proof. destruct js as [j|]; simpl; [intros ->|]; reflexivity. Qed.






(** C10, at the failing input.  Two ticks leave two fetches in flight.
    The answer [completed] to the second arrives first: the job status is
    terminal and no interval is installed.  The answer [in_progress] to
    the first arrives late and is written all the same: an interval for
    the same job is installed again and its tick sends a third status
    request for that job. *)
Lemma late_response_restarts_polling :
  p_jobStatus
    (run mount [SetJobStatus (Some (sampleStatus "in_progress" 0)); Tick; Tick;
                Respond 1 (Some (sampleStatus "completed" 2))])
  = Some (sampleStatus "completed" 2)
  /\ p_interval
       (run mount [SetJobStatus (Some (sampleStatus "in_progress" 0)); Tick; Tick;
                   Respond 1 (Some (sampleStatus "completed" 2))])
     = None
  /\ p_sent
       (run mount [SetJobStatus (Some (sampleStatus "in_progress" 0)); Tick; Tick;
                   Respond 1 (Some (sampleStatus "completed" 2))])
     = ["j1"; "j1"]
  /\ p_interval
       (run mount [SetJobStatus (Some (sampleStatus "in_progress" 0)); Tick; Tick;
                   Respond 1 (Some (sampleStatus "completed" 2));
                   Respond 0 (Some (sampleStatus "in_progress" 1))])
     = Some {| poll_job := "j1"; period_ms := 2000 |}
  /\ p_sent
       (run mount [SetJobStatus (Some (sampleStatus "in_progress" 0)); Tick; Tick;
                   Respond 1 (Some (sampleStatus "completed" 2));
                   Respond 0 (Some (sampleStatus "in_progress" 1)); Tick])
     = ["j1"; "j1"; "j1"].
Proof. repeat split; reflexivity. Qed.



End Polling.

(** ** Ingestion jobs *)
Section Ingestion.
Import Engine.

Lemma status_le_refl (a : JobStatus) : status_le a a = true.
Proof. now destruct a. Qed.

Lemma status_le_trans (a b c : JobStatus) :
  status_le a b = true -> status_le b c = true -> status_le a c = true.
Proof. destruct a, b, c; simpl; congruence. Qed.

Lemma submit_accounted (supported : string -> bool) (id conn : string)
  (files : list File) :
  accounted (submit supported id conn files).1.
Proof. split; simpl; [lia | discriminate]. Qed.

Lemma work_accounted (p : Pipeline) (e : WorkerEvent) :
  accounted p -> accounted (work p e).
Proof.
  intros H. pose proof H as [Hn Hc]. destruct e as [|n o|msg]; simpl.
  - destruct (waiting p) as [|f rest] eqn:W; [exact H|].
    destruct (live (ij_status (job p))) eqn:L; [|exact H].
    split; simpl; [|discriminate].
    rewrite length_app. simpl in *. lia.
  - destruct (ij_status (job p)) eqn:St; try exact H.
    destruct (running p !! n) as [f|] eqn:R; [|exact H].
    assert (length (delete n (running p)) = length (running p) - 1)%nat as L
      by (apply length_delete; eauto).
    assert (0 < length (running p))%nat
      by (apply lookup_lt_Some in R; lia).
    split; simpl; [lia|].
    destruct (waiting p); [|discriminate].
    destruct (delete n (running p)); [easy | discriminate].
  - destruct (live (ij_status (job p))) eqn:L; [|exact H].
    split; simpl; [lia | discriminate].
Qed.

Lemma works_accounted (es : list WorkerEvent) (p : Pipeline) :
  accounted p -> accounted (works p es).
Proof.
  revert p. induction es as [|e es IH]; intros p H; simpl; [exact H|].
  apply IH, work_accounted, H.
Qed.

Lemma work_monotone (p : Pipeline) (e : WorkerEvent) :
  status_le (ij_status (job p)) (ij_status (job (work p e))) = true
  /\ (ij_processed (job p) <= ij_processed (job (work p e)))%nat
  /\ ij_total (job (work p e)) = ij_total (job p).
Proof.
  destruct e as [|n o|msg]; simpl.
  - destruct (waiting p); [now rewrite status_le_refl|].
    destruct (ij_status (job p)) eqn:St; simpl; rewrite ?St; auto.
  - destruct (ij_status (job p)) eqn:St; simpl; rewrite ?St; auto.
    destruct (running p !! n); simpl; rewrite ?St; auto.
    split; [|split; [lia | reflexivity]].
    destruct (waiting p); [destruct (delete n (running p))|]; reflexivity.
  - destruct (ij_status (job p)) eqn:St; simpl; rewrite ?St; auto.
Qed.

Lemma works_monotone (es : list WorkerEvent) (p : Pipeline) :
  status_le (ij_status (job p)) (ij_status (job (works p es))) = true
  /\ (ij_processed (job p) <= ij_processed (job (works p es)))%nat
  /\ ij_total (job (works p es)) = ij_total (job p).
Proof.
  revert p. induction es as [|e es IH]; intros p; simpl.
  - now rewrite status_le_refl.
  - destruct (work_monotone p e) as (S1 & P1 & T1).
    destruct (IH (work p e)) as (S2 & P2 & T2).
    split; [eapply status_le_trans; eassumption|].
    split; [lia | congruence].
Qed.

(** C4.  At every point of a job's life, from its submission on, the
    processed count is at most the total; from any point to any later
    point the status only moves forward in the order pending,
    in_progress, then completed or failed, the processed count does not
    drop and the total stays.  A completed job has processed all its
    files and stays completed; it is never in progress again. *)
Theorem ingestion_job_monotone (supported : string -> bool) (id conn : string)
  (files : list File) (es1 es2 : list WorkerEvent) :
  let p1 := works (submit supported id conn files).1 es1 in
  let p2 := works p1 es2 in
  (ij_processed (job p1) <= ij_total (job p1))%nat
  /\ status_le (ij_status (job p1)) (ij_status (job p2)) = true
  /\ (ij_processed (job p1) <= ij_processed (job p2))%nat
  /\ ij_total (job p2) = ij_total (job p1)
  /\ (ij_status (job p1) = Completed ->
      ij_processed (job p1) = ij_total (job p1)
      /\ ij_status (job p2) = Completed)
  /\ (ij_status (job p1) = Failed -> ij_status (job p2) = Failed).
Proof.
  intros p1 p2.
  assert (accounted p1) as [Hn Hc]
    by (apply works_accounted, submit_accounted).
  destruct (works_monotone es2 p1) as (S & P & T). fold p2 in S, P, T.
  split; [lia|]. split; [exact S|]. split; [exact P|]. split; [exact T|].
  split.
  - intros C. destruct (Hc C) as [W R]. rewrite W, R in Hn. simpl in Hn.
    split; [lia|]. rewrite C in S. now destruct (ij_status (job p2)).
  - intros F. rewrite F in S. now destruct (ij_status (job p2)).
Qed.

End Ingestion.

Lemma ingestion_job_monotone_witness :
  Engine.ij_processed
    (Engine.job
       (Engine.works
          (Engine.submit (fun e => String.eqb e ".pdf") "j1" "conn"
             [{| Engine.file_name := "a.pdf"; Engine.file_ext := ".pdf" |};
              {| Engine.file_name := "b.exe"; Engine.file_ext := ".exe" |}]).1
          [Engine.Begin; Engine.Finish 0 (Engine.Embedded 3)]))
  = 1%nat
  /\ Engine.ij_status
       (Engine.job
          (Engine.works
             (Engine.works
                (Engine.submit (fun e => String.eqb e ".pdf") "j1" "conn"
                   [{| Engine.file_name := "a.pdf"; Engine.file_ext := ".pdf" |};
                    {| Engine.file_name := "b.exe"; Engine.file_ext := ".exe" |}]).1
                [Engine.Begin; Engine.Finish 0 (Engine.Embedded 3)])
             [Engine.Begin; Engine.Fault "storage unavailable"]))
     = Engine.Completed.
Proof.
  pose proof (ingestion_job_monotone (fun e => String.eqb e ".pdf") "j1" "conn"
                [{| Engine.file_name := "a.pdf"; Engine.file_ext := ".pdf" |};
                 {| Engine.file_name := "b.exe"; Engine.file_ext := ".exe" |}]
                [Engine.Begin; Engine.Finish 0 (Engine.Embedded 3)]
                [Engine.Begin; Engine.Fault "storage unavailable"]) as H.
  cbv zeta in H. destruct H as (_ & _ & _ & _ & H & _).
  exact (H eq_refl).
Defined.

(** ** Vector store search *)
Section VectorSearch.
Import Engine.

Variable similarity : Embedding -> Embedding -> Z.

Lemma before_trans_score (x y z : Scored) :
  sc_score y < sc_score x -> before y z -> before x z.
Proof. unfold before. lia. Qed.

Lemma StronglySorted_filter_keep {A : Type} (R : A -> A -> Prop) (P : A -> Prop)
  `{forall x, Decision (P x)} (l : list A) :
  StronglySorted R l -> StronglySorted R (filter P l).
Proof.
  induction 1 as [|x l S IH F]; [constructor|].
  rewrite filter_cons. destruct (decide (P x)); [|exact IH].
  constructor; [exact IH|].
  apply Forall_forall. intros y [_ Hy]%list_elem_of_filter.
  rewrite Forall_forall in F. now apply F.
Qed.

Lemma elem_of_score_from (x : Scored) (i : nat) (q : Embedding)
  (cs : list DocumentChunk) :
  x ∈ score_from similarity i q cs <->
  exists n c, cs !! n = Some c
    /\ x = {| sc_score := similarity q (embedding c);
              sc_pos := (i + n)%nat; sc_chunk := c |}.
Proof.
  revert i. induction cs as [|c cs IH]; intros i; simpl.
  - split; [intros H; inversion H | intros (n & c & H & _); discriminate].
  - rewrite elem_of_cons, IH. split.
    + intros [-> | (n & d & Hn & ->)].
      * exists 0%nat, c. split; [reflexivity|]. f_equal. lia.
      * exists (S n), d. split; [exact Hn|]. f_equal. lia.
    + intros ([|n] & d & Hn & ->); simpl in Hn.
      * left. injection Hn as <-. f_equal. lia.
      * right. exists n, d. split; [exact Hn|]. f_equal. lia.
Qed.

Lemma score_from_rising (i : nat) (q : Embedding) (cs : list DocumentChunk) :
  StronglySorted created_before (score_from similarity i q cs).
Proof.
  revert i. induction cs as [|c cs IH]; intros i; simpl; constructor; [apply IH|].
  apply Forall_forall. intros x (n & d & _ & ->)%elem_of_score_from.
  unfold created_before. simpl. lia.
Qed.

Lemma length_candidates_from (i : nat) (q : Embedding) (cs : list DocumentChunk)
  (flt : option (DocumentChunk -> bool)) :
  length (filter (fun s => passes flt (sc_chunk s) = true)
            (score_from similarity i q cs))
  = length (filter (fun c => passes flt c = true) cs).
Proof.
  revert i. induction cs as [|c cs IH]; intros i; simpl; [reflexivity|].
  rewrite !filter_cons. simpl.
  destruct (decide (passes flt c = true)); simpl; now rewrite IH.
Qed.

Lemma insert_ranked_perm (x : Scored) (l : list Scored) :
  insert_ranked x l ≡ₚ x :: l.
Proof.
  induction l as [|y l IH]; simpl; [reflexivity|].
  destruct (sc_score x <=? sc_score y); [|reflexivity].
  rewrite IH. apply Permutation_swap.
Qed.

Lemma insert_ranked_sorted (x : Scored) (l : list Scored) :
  StronglySorted before l ->
  Forall (fun y => created_before y x) l ->
  StronglySorted before (insert_ranked x l).
Proof.
  induction 1 as [|y l S IH F]; intros P; simpl.
  - repeat constructor.
  - apply Forall_cons in P as [Py P].
    destruct (sc_score x <=? sc_score y) eqn:C.
    + apply Z.leb_le in C. constructor; [now apply IH|].
      apply Forall_forall. intros z Hz.
      rewrite insert_ranked_perm in Hz. apply elem_of_cons in Hz as [-> | Hz].
      * unfold before, created_before in *. lia.
      * rewrite Forall_forall in F. now apply F.
    + apply Z.leb_gt in C. constructor; [now constructor|].
      constructor; [unfold before; lia|].
      apply Forall_forall. intros z Hz. rewrite Forall_forall in F.
      apply (before_trans_score x y z C), F, Hz.
Qed.

Lemma rank_from_sorted (xs acc : list Scored) :
  StronglySorted before acc ->
  StronglySorted created_before xs ->
  (forall a x, a ∈ acc -> x ∈ xs -> created_before a x) ->
  StronglySorted before (foldl (fun acc x => insert_ranked x acc) acc xs)
  /\ foldl (fun acc x => insert_ranked x acc) acc xs ≡ₚ acc ++ xs.
Proof.
  revert acc. induction xs as [|x xs IH]; intros acc Sa Sx Lt; simpl.
  - split; [exact Sa | now rewrite app_nil_r].
  - apply StronglySorted_cons in Sx as [Fx Sx].
    destruct (IH (insert_ranked x acc)) as [S P].
    + apply insert_ranked_sorted; [exact Sa|].
      apply Forall_forall. intros a Ha. apply Lt; [exact Ha | left].
    + exact Sx.
    + intros a z Ha Hz. rewrite insert_ranked_perm in Ha.
      apply elem_of_cons in Ha as [-> | Ha].
      * rewrite Forall_forall in Fx. now apply Fx.
      * apply Lt; [exact Ha | now right].
    + split; [exact S|]. rewrite P, insert_ranked_perm. simpl.
      apply Permutation_middle.
Qed.

Lemma rank_all_candidates (part : list DocumentChunk) (q : Embedding)
  (flt : option (DocumentChunk -> bool)) :
  StronglySorted before (rank_all (candidates similarity part q flt))
  /\ rank_all (candidates similarity part q flt) ≡ₚ candidates similarity part q flt.
Proof.
  unfold rank_all.
  destruct (rank_from_sorted (candidates similarity part q flt) []) as [S P].
  - constructor.
  - apply StronglySorted_filter_keep, score_from_rising.
  - intros a x Ha. inversion Ha.
  - split; [exact S | exact P].
Qed.

(** C5.  For every store, query embedding, [k] and optional filter, the
    chunks search returns are [k] of the stored chunks that pass the
    filter, or all of them when there are fewer; each is scored with the
    one similarity measure; they come in order of falling similarity,
    chunks of equal similarity in order of creation; and every passing
    chunk left out comes after every chunk returned in that order. *)
Theorem search_returns_top_k (store : gmap string (list DocumentChunk))
  (conn : string) (q : Embedding) (k : nat)
  (flt : option (DocumentChunk -> bool)) :
  let part := partition store conn in
  let r := search_ranked similarity store conn q k flt in
  search similarity store conn q k flt = map sc_chunk r
  /\ length r = min k (length (filter (fun c => passes flt c = true) part))
  /\ StronglySorted before r
  /\ (forall e, e ∈ r ->
        part !! sc_pos e = Some (sc_chunk e)
        /\ passes flt (sc_chunk e) = true
        /\ sc_score e = similarity q (embedding (sc_chunk e)))
  /\ (forall i c, part !! i = Some c -> passes flt c = true ->
        let x := {| sc_score := similarity q (embedding c);
                    sc_pos := i; sc_chunk := c |} in
        x ∈ r \/ forall e, e ∈ r -> before e x).
Proof.
  intros part r. unfold r, search_ranked. fold part.
  destruct (rank_all_candidates part q flt) as [S P].
  set (L := rank_all (candidates similarity part q flt)) in *.
  split; [reflexivity|]. split; [|split; [|split]].
  - rewrite length_take, (Permutation_length P). unfold candidates.
    now rewrite length_candidates_from.
  - rewrite <- (take_drop k L) in S. eapply StronglySorted_app_1_l, S.
  - intros e He. apply elem_of_take in He as (n & He & _).
    apply list_elem_of_lookup_2 in He. rewrite P in He.
    apply list_elem_of_filter in He as [Hp (n' & c & Hc & ->)%elem_of_score_from].
    simpl in *. auto.
  - intros i c Hc Hp. cbv zeta.
    set (x := {| sc_score := similarity q (embedding c);
                 sc_pos := i; sc_chunk := c |}).
    assert (x ∈ L) as Hx.
    { rewrite P. apply list_elem_of_filter. split; [exact Hp|].
      apply elem_of_score_from. exists i, c. split; [exact Hc | reflexivity]. }
    rewrite <- (take_drop k L) in Hx, S.
    apply elem_of_app in Hx as [Hx | Hx]; [now left | right].
    intros e He. eapply StronglySorted_app_1_elem_of; eassumption.
Qed.

End VectorSearch.

Lemma search_returns_top_k_witness :
  {| Engine.sc_score := 0; Engine.sc_pos := 1;
     Engine.sc_chunk := Engine.sampleChunk "b" [0; 1] |}
    ∈ Engine.search_ranked Engine.dot Engine.sampleStore "conn" [1; 0] 3 None
  \/ forall e,
       e ∈ Engine.search_ranked Engine.dot Engine.sampleStore "conn" [1; 0] 3 None ->
       Engine.before e
         {| Engine.sc_score := 0; Engine.sc_pos := 1;
            Engine.sc_chunk := Engine.sampleChunk "b" [0; 1] |}.
Proof.
  pose proof (search_returns_top_k Engine.dot Engine.sampleStore "conn" [1; 0] 3 None) as H.
  cbv zeta in H. destruct H as (_ & _ & _ & _ & H).
  exact (H 1%nat (Engine.sampleChunk "b" [0; 1]) eq_refl eq_refl).
Defined.

(** * Further properties of the client *)

(** ** More on strings and normalizeConnectionString *)
Section NormalizeMore.
Import JsString Dashboard Page.

Lemma startsWith_split (s p : string) :
  startsWith s p = true -> exists r, s = p +:+ r.
Proof.
  revert s. induction p as [|a p IH]; intros s H; simpl in *.
  - now exists s.
  - destruct s as [|c s]; [discriminate|].
    apply andb_prop in H as [Hc Hs]. apply Ascii.eqb_eq in Hc as ->.
    destruct (IH s Hs) as [r ->]. now exists r.
Qed.

Lemma toLowerCase_split (s a r : string) :
  toLowerCase s = a +:+ r ->
  exists p rest, s = p +:+ rest /\ toLowerCase p = a.
Proof.
  revert s. induction a as [|x a IH]; intros s H; simpl in *.
  - now exists "", s.
  - destruct s as [|c s]; [discriminate|]. simpl in H. injection H as Hc Hs.
    destruct (IH s Hs) as (p & rest & -> & Hp).
    exists (String c p), rest. split; [reflexivity|]. simpl. now rewrite Hc, Hp.
Qed.

Lemma lower_prefix_split (s pat : string) :
  startsWith (toLowerCase s) pat = true ->
  exists p rest, s = p +:+ rest /\ toLowerCase p = pat.
Proof.
  intros [r Hr]%startsWith_split. eapply toLowerCase_split, Hr.
Qed.

Lemma normalize_not_driverless (s : string) :
  driverless s = false -> normalizeConnectionString s = s.
Proof.
  unfold driverless, normalizeConnectionString.
  intros [H1 H2]%orb_false_elim. rewrite H1, H2.
  now destruct (startsWith (toLowerCase s) "postgresql+"),
    (startsWith (toLowerCase s) "postgres+").
Qed.

Lemma normalize_driverless (s : string) :
  driverless s = true ->
  exists p rest,
    s = p +:+ rest
    /\ (toLowerCase p = "postgresql://" \/ toLowerCase p = "postgres://")
    /\ normalizeConnectionString s = "postgresql+psycopg://" +:+ rest.
Proof.
  unfold driverless. intros [H | H]%orb_prop;
    destruct (lower_prefix_split _ _ H) as (p & rest & -> & Hp);
    exists p, rest; (split; [reflexivity|]).
  - split; [now left | now apply normalize_postgresql].
  - split; [now right | now apply normalize_postgres].
Qed.

(** X1.  Whatever the input, the result of [normalizeConnectionString]
    is not a postgres URL without a driver: neither prefix test that
    leads to a rewrite holds of it, in any case of letters. *)
Theorem normalize_never_driverless (s : string) :
  driverless (normalizeConnectionString s) = false.
Proof.
  destruct (driverless s) eqn:D.
  - destruct (normalize_driverless s D) as (p & rest & _ & _ & ->). reflexivity.
  - now rewrite normalize_not_driverless.
Qed.

(** X2.  [normalizeConnectionString] rewrites exactly the inputs that
    pass one of the two driverless prefix tests: such an input is a case
    variant of [postgresql://] or [postgres://] followed by a remainder,
    and the result is [postgresql+psycopg://] followed by that remainder,
    unchanged; every other input is returned as it is. *)
Theorem normalize_rewrites_exactly (s : string) :
  if driverless s then
    exists p rest,
      s = p +:+ rest
      /\ (toLowerCase p = "postgresql://" \/ toLowerCase p = "postgres://")
      /\ normalizeConnectionString s = "postgresql+psycopg://" +:+ rest
  else normalizeConnectionString s = s.
Proof.
  destruct (driverless s) eqn:D.
  - now apply normalize_driverless.
  - now apply normalize_not_driverless.
Qed.

Lemma normalize_twice (s : string) :
  normalizeConnectionString (normalizeConnectionString s)
  = normalizeConnectionString s.
Proof.
  destruct (normalize_cases s) as [H | [rest H]].
  - now rewrite !H.
  - rewrite H. apply normalize_keeps_psycopg.
Qed.

Lemma normalize_nonempty (s : string) :
  truthy s = true -> truthy (normalizeConnectionString s) = true.
Proof.
  intros H. destruct (normalize_cases s) as [-> | [rest ->]]; [exact H | reflexivity].
Qed.

Lemma trimEnd_twice (s : string) : trimEnd (trimEnd s) = trimEnd s.
Proof.
  induction s as [|c s IH]; simpl; [reflexivity|].
  destruct (trimEnd s) as [|d t] eqn:E.
  - destruct (isWhiteSpace c) eqn:W; simpl; [reflexivity | now rewrite W].
  - simpl in *. now rewrite IH.
Qed.

Lemma trimStart_head (s : string) :
  trimStart s = ""
  \/ exists c r, trimStart s = String c r /\ isWhiteSpace c = false.
Proof.
  induction s as [|c s IH]; simpl; [now left|].
  destruct (isWhiteSpace c) eqn:W; [exact IH | right; eauto].
Qed.

Lemma trimEnd_head (c : ascii) (r : string) :
  isWhiteSpace c = false -> exists u, trimEnd (String c r) = String c u.
Proof.
  intros W. simpl. destruct (trimEnd r); rewrite ?W; eauto.
Qed.

(** Trimming leaves nothing to trim. *)
Lemma trim_twice (s : string) : trim (trim s) = trim s.
Proof.
  unfold trim. destruct (trimStart_head s) as [-> | (c & r & -> & W)].
  - reflexivity.
  - destruct (trimEnd_head c r W) as [u E]. rewrite E.
    simpl trimStart. rewrite W, <- E. apply trimEnd_twice.
Qed.

Lemma truthy_trim (s : string) :
  truthy (trim s) = negb (allWhiteSpace s).
Proof.
  destruct (allWhiteSpace s) eqn:A.
  - apply trim_empty_iff in A. now rewrite A.
  - destruct (trim s) eqn:T; [|reflexivity].
    apply trim_empty_iff in T. congruence.
Qed.

End NormalizeMore.

(** ** handleRunQuery *)
Section RunQueryMore.
Import JsString Dashboard Page.

(** X3.  [handleRunQuery] sends something exactly when the connection
    string is not empty and the query text is not blank.  What it sends
    then starts with one query request that carries the normalized
    connection string, the trimmed query text (not empty, nothing left to
    trim) and [top_k] 10; the only other request is the history request
    for the same connection string, and it is sent only after the query
    succeeded.  Otherwise nothing is sent and the server is untouched. *)
Theorem handleRunQuery_requests (S : Type) (srv : Server S) (d : State) (sv : S) :
  let rs := (handleRunQuery srv d sv).2 in
  let d' := (handleRunQuery srv d sv).1.1 in
  if truthy (connectionString d) && negb (allWhiteSpace (queryText d)) then
    exists body more,
      rs = PostQuery body :: more
      /\ connection_string body = normalizeConnectionString (connectionString d)
      /\ query body = trim (queryText d)
      /\ query body <> ""
      /\ trim (query body) = query body
      /\ top_k body = 10
      /\ (more = []
          \/ (more = [GetHistory (connection_string body)]
              /\ queryError d' = None
              /\ exists data, queryResult d' = Some data))
  else rs = [] /\ (handleRunQuery srv d sv).1.2 = sv.
Proof.
  cbv zeta. unfold handleRunQuery. rewrite truthy_trim.
  destruct (truthy (connectionString d)); simpl; [|now split].
  destruct (allWhiteSpace (queryText d)) eqn:A; simpl; [now split|].
  assert (trim (queryText d) <> "") as NE.
  { intros E. apply trim_empty_iff in E. congruence. }
  destruct (post_query srv sv _) as [sv1 [data|detail]].
  - destruct (get_history srv sv1 _) as [sv2 records].
    eexists _, _. split; [reflexivity|]. simpl.
    repeat (split; [first [reflexivity | exact NE | apply trim_twice]|]).
    right. split; [reflexivity|].
    destruct records; simpl; eauto.
  - eexists _, _. split; [reflexivity|]. simpl.
    repeat (split; [first [reflexivity | exact NE | apply trim_twice]|]).
    now left.
Qed.

(** X4.  [handleRunQuery] never changes the connection string, the query
    text or the job status.  When it sends the query it ends with
    [queryLoading] off and the cells follow the server's answer: on
    success the result is the data answered, the error is cleared and the
    history is the answer to the history fetch, or stays when that fetch
    fails; on failure the error is the detail answered and the previous
    result and history stay.  When it sends nothing, only the error is
    set, to the message of the guard that stopped it. *)
Theorem handleRunQuery_settles (S : Type) (srv : Server S) (d : State) (sv : S) :
  let r := handleRunQuery srv d sv in
  let d' := r.1.1 in
  let N := normalizeConnectionString (connectionString d) in
  let body := {| connection_string := N; query := trim (queryText d);
                 top_k := 10 |} in
  connectionString d' = connectionString d
  /\ queryText d' = queryText d
  /\ jobStatus d' = jobStatus d
  /\ if truthy (connectionString d) && negb (allWhiteSpace (queryText d)) then
       queryLoading d' = false
       /\ match post_query srv sv body with
          | (sv1, inl data) =>
              queryResult d' = Some data
              /\ queryError d' = None
              /\ history d' = default (history d) (get_history srv sv1 N).2
              /\ r.1.2 = (get_history srv sv1 N).1
          | (sv1, inr detail) =>
              queryError d' = Some detail
              /\ queryResult d' = queryResult d
              /\ history d' = history d
              /\ r.1.2 = sv1
          end
     else
       queryLoading d' = queryLoading d
       /\ queryResult d' = queryResult d
       /\ history d' = history d
       /\ r.1.2 = sv
       /\ queryError d'
          = Some (if truthy (connectionString d)
                  then "Please enter a natural language query."
                  else "Connect to a database first.").
Proof.
  cbv zeta. unfold handleRunQuery. rewrite truthy_trim.
  destruct (truthy (connectionString d)); simpl; [|easy].
  destruct (allWhiteSpace (queryText d)); simpl; [easy|].
  destruct (post_query srv sv _) as [sv1 [data|detail]].
  - destruct (get_history srv sv1 _) as [sv2 [rs|]]; simpl; easy.
  - simpl. easy.
Qed.

End RunQueryMore.

(** ** handleConnect, handleRefreshSchema and the connection effects *)
Section ConnectMore.
Import JsString Dashboard Page.

Lemma onlyHistory_id : onlyHistory (fun c => c).
Proof. intros c. repeat split. Qed.

Lemma onlyHistory_apply (records : option (list HistoryRecord)) :
  onlyHistory (applyHistory records).
Proof. intros c. destruct records; repeat split. Qed.

Lemma onlyHistory_compose (f g : Cells -> Cells) :
  onlyHistory f -> onlyHistory g -> onlyHistory (fun c => f (g c)).
Proof.
  intros F G c. destruct (F (g c)) as (F1 & F2 & F3 & F4 & F5 & F6).
  destruct (G c) as (G1 & G2 & G3 & G4 & G5 & G6).
  repeat split; congruence.
Qed.

Lemma effectFetch_only (S : Type) (b : Backend S) (on : bool) (conn : string)
  (sv : S) :
  onlyHistory (effectFetch b on conn sv).2.
Proof.
  unfold effectFetch. destruct on; [|apply onlyHistory_id].
  destruct (get_history (api b) sv conn) as [sv' records].
  apply onlyHistory_apply.
Qed.

Lemma effectFetch_state (S : Type) (b : Backend S) (on : bool) (conn : string)
  (sv : S) :
  (effectFetch b on conn sv).1
  = if on then (get_history (api b) sv conn).1 else sv.
Proof.
  unfold effectFetch. destruct on; [|reflexivity].
  now destruct (get_history (api b) sv conn).
Qed.

(** What [handleConnect] leaves in the cells and sends when the
    connection string is not blank, by the server's answer to the POST. *)
Lemma handleConnect_outcome (S : Type) (b : Backend S) (t : Timing) (c : Cells)
  (sv : S) :
  allWhiteSpace (connectionString (panel c)) = false ->
  let cs := connectionString (panel c) in
  let N := normalizeConnectionString (trim cs) in
  let changed := negb (String.eqb N cs) in
  let sv0 := if changed && servedEarly t
             then (get_history (api b) sv N).1 else sv in
  let effectCalls := if changed then [Sent (GetHistory N)] else [] in
  let r := handleConnect b t c sv in
  connectionString (panel r.1.1) = N
  /\ queryText (panel r.1.1) = queryText (panel c)
  /\ schemaLoading r.1.1 = false
  /\ match (post_database b sv0 N).2 with
     | inl data =>
         r.2 = PostDatabase N :: effectCalls ++ [Sent (GetHistory N)]
         /\ schema r.1.1 = Some (cd_schema data)
         /\ connectionStatus r.1.1
            = Some (default "Database connected." (cd_message data))
         /\ connectionError r.1.1 = None
     | inr detail =>
         r.2 = PostDatabase N :: effectCalls
         /\ schema r.1.1 = schema c
         /\ connectionStatus r.1.1 = None
         /\ connectionError r.1.1 = Some detail
     end.
Proof.
  intros A. cbv zeta. unfold handleConnect. rewrite truthy_trim, A. simpl.
  set (N := normalizeConnectionString (trim (connectionString (panel c)))).
  set (changed := negb (String.eqb N (connectionString (panel c)))).
  set (c1 := setConnectionError None
               (setConnectionStatus None (setSchemaLoading true c))).
  set (c2 := if changed then onPanel (setConnectionString N) c1 else c1).
  assert (connectionString (panel c2) = N /\ queryText (panel c2) = queryText (panel c)
          /\ schema c2 = schema c /\ connectionStatus c2 = None
          /\ connectionError c2 = None) as (K1 & K2 & K3 & K4 & K5).
  { unfold c2, changed.
    destruct (String.eqb N (connectionString (panel c))) eqn:E; simpl; [|easy].
    apply String.eqb_eq in E. easy. }
  rewrite <- (effectFetch_state S b (changed && servedEarly t) N sv).
  pose proof (effectFetch_only S b (changed && servedEarly t) N sv) as H0.
  destruct (effectFetch b (changed && servedEarly t) N sv) as [sv0 h0].
  cbn [fst snd] in *.
  destruct (post_database b sv0 N) as [sv1 [data|detail]]; cbn [fst snd].
  - pose proof (effectFetch_only S b (changed && servedBetween t) N sv1) as H1.
    destruct (effectFetch b (changed && servedBetween t) N sv1) as [sv2 h1].
    destruct (get_history (api b) sv2 N) as [sv3 records].
    pose proof (effectFetch_only S b (changed && servedLate t) N sv3) as H2.
    destruct (effectFetch b (changed && servedLate t) N sv3) as [sv4 h2].
    cbn [fst snd] in *.
    set (c3 := setConnectionStatus
                 (Some (default "Database connected." (cd_message data)))
                 (setSchema (Some (cd_schema data)) c2)).
    assert (exists h, onlyHistory h
              /\ (if effectAnswerLast t
                  then h2 (h1 (h0 (applyHistory records c3)))
                  else applyHistory records (h2 (h1 (h0 c3)))) = h c3) as (h & Hh & ->).
    { destruct (effectAnswerLast t).
      - exists (fun x => h2 (h1 (h0 (applyHistory records x)))).
        split; [|reflexivity].
        apply (onlyHistory_compose h2 (fun x => h1 (h0 (applyHistory records x))) H2).
        apply (onlyHistory_compose h1 (fun x => h0 (applyHistory records x)) H1).
        apply (onlyHistory_compose h0 (applyHistory records) H0).
        apply onlyHistory_apply.
      - exists (fun x => applyHistory records (h2 (h1 (h0 x)))).
        split; [|reflexivity].
        apply (onlyHistory_compose (applyHistory records) (fun x => h2 (h1 (h0 x)))
                 (onlyHistory_apply records)).
        apply (onlyHistory_compose h2 (fun x => h1 (h0 x)) H2).
        apply (onlyHistory_compose h1 h0 H1 H0). }
    destruct (Hh c3) as (E1 & E2 & E3 & E4 & E5 & E6). simpl.
    rewrite E1, E2, E3, E4, E5. simpl. easy.
  - pose proof (effectFetch_only S b (changed && negb (servedEarly t)) N sv1) as H1.
    destruct (effectFetch b (changed && negb (servedEarly t)) N sv1) as [sv2 h1].
    cbn [fst snd] in *.
    destruct (onlyHistory_compose h1 h0 H1 H0 c2) as (E1 & E2 & E3 & E4 & E5 & E6).
    simpl in *. rewrite E1, E2, E3, E5. easy.
Qed.

(** X5.  With a blank connection string [handleConnect] only reports an
    error and sends nothing.  Otherwise it posts the normalized, trimmed
    connection string, the [connectionString] cell holds that string
    afterwards whether the server accepted it or not, and
    [schemaLoading] is off.  When the cell was changed by this, the
    history effect sends one history request for the same string.  The
    rest follows the server's answer to the POST: a failure leaves the
    schema as it was, clears the status and shows the detail answered; a
    success shows the schema answered and the message answered (or
    "Database connected."), clears the error and requests the history of
    that connection once more. *)
Theorem handleConnect_identity (S : Type) (b : Backend S) (t : Timing)
  (c : Cells) (sv : S) :
  let cs := connectionString (panel c) in
  let N := normalizeConnectionString (trim cs) in
  let changed := negb (String.eqb N cs) in
  let sv0 := if changed && servedEarly t
             then (get_history (api b) sv N).1 else sv in
  let effectCalls := if changed then [Sent (GetHistory N)] else [] in
  let r := handleConnect b t c sv in
  if allWhiteSpace cs then
    r = (setConnectionError (Some "Please provide a database connection string.") c,
         sv, [])
  else
    connectionString (panel r.1.1) = N
    /\ schemaLoading r.1.1 = false
    /\ match (post_database b sv0 N).2 with
       | inl data =>
           r.2 = PostDatabase N :: effectCalls ++ [Sent (GetHistory N)]
           /\ schema r.1.1 = Some (cd_schema data)
           /\ connectionStatus r.1.1
              = Some (default "Database connected." (cd_message data))
           /\ connectionError r.1.1 = None
       | inr detail =>
           r.2 = PostDatabase N :: effectCalls
           /\ schema r.1.1 = schema c
           /\ connectionStatus r.1.1 = None
           /\ connectionError r.1.1 = Some detail
       end.
Proof.
  cbv zeta. destruct (allWhiteSpace (connectionString (panel c))) eqn:A.
  - unfold handleConnect. now rewrite truthy_trim, A.
  - pose proof (handleConnect_outcome S b t c sv A) as H. cbv zeta in H.
    destruct H as (H1 & _ & H3 & H4). split; [exact H1|]. split; [exact H3|].
    exact H4.
Qed.

(** X6.  After [handleConnect] ran on a connection string that is not
    blank, the other handlers speak of the same connection: a schema
    refresh, the history effect and a query (with a query text that is not
    blank) all send exactly the string [handleConnect] posted. *)
Theorem connect_then_same_identity (S : Type) (b : Backend S) (t : Timing)
  (c : Cells) (sv sv' : S) :
  allWhiteSpace (connectionString (panel c)) = false ->
  allWhiteSpace (queryText (panel c)) = false ->
  let N := normalizeConnectionString (trim (connectionString (panel c))) in
  let c' := (handleConnect b t c sv).1.1 in
  (exists more, (handleConnect b t c sv).2 = PostDatabase N :: more)
  /\ (handleRefreshSchema b c' sv').2 = [GetSchema N]
  /\ (historyEffect b c' sv').2 = [Sent (GetHistory N)]
  /\ exists body more,
       (runQuery b c' sv').2 = Sent (PostQuery body) :: more
       /\ connection_string body = N.
Proof.
  intros A Q. cbv zeta.
  pose proof (handleConnect_outcome S b t c sv A) as H. cbv zeta in H.
  destruct H as (HC & HQ & _ & HA).
  set (N := normalizeConnectionString (trim (connectionString (panel c)))) in *.
  set (c' := (handleConnect b t c sv).1.1) in *.
  assert (truthy N = true) as TN.
  { apply normalize_nonempty. now rewrite truthy_trim, A. }
  split; [|split; [|split]].
  - destruct (post_database b _ N).2; destruct HA as [-> _]; eauto.
  - unfold handleRefreshSchema. rewrite HC, TN. simpl.
    now destruct (get_schema b sv' N) as [sv1 [data|detail]].
  - unfold historyEffect. rewrite HC, TN. simpl.
    now destruct (get_history (api b) sv' N) as [sv1 rs].
  - unfold runQuery, handleRunQuery. rewrite HC, HQ, TN, truthy_trim, Q. simpl.
    assert (normalizeConnectionString N = N) as NN by apply normalize_twice.
    rewrite !NN.
    destruct (post_query (api b) sv' _) as [sv1 [data|detail]].
    + destruct (get_history (api b) sv1 N) as [sv2 rs]. simpl. eauto.
    + simpl. eauto.
Qed.

Lemma connect_then_same_identity_witness :
  (handleRefreshSchema sampleBackend
     (handleConnect sampleBackend sampleTiming
        (sampleCells "  Postgres://u@h/db " "staff") 0%nat).1.1
     5%nat).2
  = [GetSchema "postgresql+psycopg://u@h/db"].
Proof.
  pose proof (connect_then_same_identity nat sampleBackend sampleTiming
                (sampleCells "  Postgres://u@h/db " "staff") 0%nat 5%nat
                eq_refl eq_refl) as H.
  cbv zeta in H. destruct H as (_ & H & _). exact H.
Defined.

(** X7.  [handleConnect] does not tell apart connection strings that
    differ only in surrounding white space in what it names: it sends
    something for both or for neither, every request made for either is
    the POST or a history request for the one normalized string, and,
    unless they are blank, both leave that string in the
    [connectionString] cell.  (How many history requests are sent may
    differ: the history effect runs only when the cell changes.) *)
Theorem handleConnect_ignores_outer_space (S : Type) (b : Backend S)
  (t1 t2 : Timing) (c1 c2 : Cells) (sv1 sv2 : S) :
  whiteSpaceVariants (connectionString (panel c1)) (connectionString (panel c2)) ->
  let N := normalizeConnectionString (trim (connectionString (panel c2))) in
  let r1 := handleConnect b t1 c1 sv1 in
  let r2 := handleConnect b t2 c2 sv2 in
  (r1.2 = [] <-> r2.2 = [])
  /\ (forall call, call ∈ r1.2 ++ r2.2 ->
        call = PostDatabase N \/ call = Sent (GetHistory N))
  /\ (allWhiteSpace (connectionString (panel c2)) = false ->
      connectionString (panel r1.1.1) = N
      /\ connectionString (panel r2.1.1) = N
      /\ (exists more, r1.2 = PostDatabase N :: more)
      /\ exists more, r2.2 = PostDatabase N :: more).
Proof.
  unfold whiteSpaceVariants. intros V. cbv zeta.
  set (N := normalizeConnectionString (trim (connectionString (panel c2)))).
  assert (allWhiteSpace (connectionString (panel c1))
          = allWhiteSpace (connectionString (panel c2))) as W.
  { apply (f_equal truthy) in V. rewrite !truthy_trim in V.
    now destruct (allWhiteSpace (connectionString (panel c1))),
      (allWhiteSpace (connectionString (panel c2))). }
  destruct (allWhiteSpace (connectionString (panel c2))) eqn:A2.
  - unfold handleConnect. rewrite !truthy_trim, W, A2. simpl.
    split; [easy|]. split; [|discriminate].
    intros call H. inversion H.
  - pose proof (handleConnect_outcome S b t1 c1 sv1 W) as H1.
    pose proof (handleConnect_outcome S b t2 c2 sv2 A2) as H2.
    cbv zeta in H1, H2. rewrite V in H1. fold N in H1, H2.
    destruct H1 as (C1 & _ & _ & R1). destruct H2 as (C2 & _ & _ & R2).
    assert (exists more, (handleConnect b t1 c1 sv1).2 = PostDatabase N :: more
              /\ forall call, call ∈ more -> call = Sent (GetHistory N)) as (m1 & E1 & M1).
    { match type of R1 with match ?x with _ => _ end => destruct x end;
        destruct R1 as [-> _];
        eexists; (split; [reflexivity|]);
        destruct (negb (String.eqb N (connectionString (panel c1)))); simpl;
        intros call H; repeat (apply elem_of_cons in H as [-> | H]; [reflexivity|]);
        inversion H. }
    assert (exists more, (handleConnect b t2 c2 sv2).2 = PostDatabase N :: more
              /\ forall call, call ∈ more -> call = Sent (GetHistory N)) as (m2 & E2 & M2).
    { match type of R2 with match ?x with _ => _ end => destruct x end;
        destruct R2 as [-> _];
        eexists; (split; [reflexivity|]);
        destruct (negb (String.eqb N (connectionString (panel c2)))); simpl;
        intros call H; repeat (apply elem_of_cons in H as [-> | H]; [reflexivity|]);
        inversion H. }
    rewrite E1, E2. split; [easy|]. split.
    + intros call [H | H]%elem_of_app;
        apply elem_of_cons in H as [-> | H]; auto.
    + intros _. split; [exact C1|]. split; [exact C2|]. split; eauto.
Qed.

Lemma handleConnect_ignores_outer_space_witness :
  connectionString
    (panel (handleConnect sampleBackend sampleTiming
              (sampleCells " postgres://h/db" "") 0%nat).1.1)
  = "postgresql+psycopg://h/db".
Proof.
  pose proof (handleConnect_ignores_outer_space nat sampleBackend
                sampleTiming sampleTiming
                (sampleCells " postgres://h/db" "")
                (sampleCells "postgres://h/db  " "") 0%nat 3%nat eq_refl) as H.
  cbv zeta in H. destruct H as (_ & _ & H).
  destruct (H eq_refl) as (H1 & _). exact H1.
Defined.

(** X8.  The connection string survives a reload: after the effect on
    [connectionString] has run, the initial value read back from
    [localStorage] is the connection string, the empty one included, and
    no other stored item is touched.  An empty connection string also
    clears the schema and the history, and the history effect then
    requests nothing. *)
Theorem connection_string_survives_reload (S : Type) (b : Backend S)
  (c : Cells) (storage : gmap string string) (sv : S) :
  let c' := (connectionEffect c storage).1 in
  let storage' := (connectionEffect c storage).2 in
  initialConnectionString storage' = connectionString (panel c)
  /\ connectionString (panel c') = connectionString (panel c)
  /\ (forall k, k <> storageKey -> storage' !! k = storage !! k)
  /\ (connectionString (panel c) = "" ->
      schema c' = None /\ history (panel c') = []
      /\ historyEffect b c' sv = (c', sv, [])).
Proof.
  cbv zeta. unfold connectionEffect, initialConnectionString.
  destruct (connectionString (panel c)) as [|a cs] eqn:E; simpl.
  - rewrite lookup_delete_eq. repeat split.
    + exact E.
    + intros k Hk. now rewrite lookup_delete_ne.
    + unfold historyEffect. simpl. now rewrite E.
  - rewrite lookup_insert_eq. repeat split; try exact E; try discriminate.
    intros k Hk. now rewrite lookup_insert_ne.
Qed.

End ConnectMore.

Lemma connection_string_survives_reload_witness :
  (Page.connectionEffect (Page.sampleCells "sqlite:///e.db" "")
     {[ "theme" := "dark" ]}).2 !! "theme"
  = ({[ "theme" := "dark" ]} : gmap string string) !! "theme".
Proof.
  pose proof (connection_string_survives_reload nat Page.sampleBackend
                (Page.sampleCells "sqlite:///e.db" "")
                {[ "theme" := "dark" ]} 0%nat) as H.
  cbv zeta in H. destruct H as (_ & _ & H & _).
  apply H. discriminate.
Defined.

(** ** handleFileSelected and the poller *)
Section UploadMore.
Import JsString Dashboard Page.


Lemma unmounted_stays_silent (es : list Event) (p : Poller) :
  p_mounted p = false -> p_interval p = None ->
  p_sent (run p es) = p_sent p
  /\ p_interval (run p es) = None
  /\ p_jobStatus (run p es) = p_jobStatus p.
Proof.
  revert p. induction es as [|e es IH]; intros p M I; simpl; [easy|].
  assert (p_mounted (step p e) = false /\ p_interval (step p e) = None
          /\ p_sent (step p e) = p_sent p
          /\ p_jobStatus (step p e) = p_jobStatus p) as (M' & I' & Se & J).
  { destruct e as [|n r|v|]; simpl.
    - now rewrite I.
    - destruct (p_inflight p !! n); [|easy].
      destruct r as [next|]; [|easy].
      unfold applySetJobStatus. simpl. now rewrite M.
    - unfold applySetJobStatus. now rewrite M.
    - easy. }
  destruct (IH (step p e) M' I') as (H1 & H2 & H3).
  split; [congruence|]. split; [exact H2 | congruence].
Qed.

(** X10.  Unmounting ends the polling for good: from any state, once
    the component is unmounted no status request is sent, no interval is
    installed and the job status is not written again, whatever ticks,
    responses to fetches still in flight or status updates come after. *)
Theorem unmount_ends_polling (p : Poller) (es : list Event) :
  p_sent (run (step p Unmount) es) = p_sent p
  /\ p_interval (run (step p Unmount) es) = None
  /\ p_jobStatus (run (step p Unmount) es) = p_jobStatus p.
Proof.
  destruct (unmounted_stays_silent es (step p Unmount)) as (H1 & H2 & H3);
    [reflexivity | reflexivity |].
  split; [exact H1|]. split; [exact H2 | exact H3].
Qed.

(** The requests sent and the interval installed only name jobs whose
    status was written, by an upload or by a response. *)
Lemma polled_were_written (es : list Event) (p : Poller) (W : list string) :
  (forall i, p_interval p = Some i -> poll_job i ∈ W) ->
  (forall g, g ∈ p_sent p -> g ∈ W) ->
  forall g, g ∈ p_sent (run p es) -> g ∈ W ++ (es ≫= writes).
Proof.
  revert p W. induction es as [|e es IH]; intros p W HI HS g Hg; simpl in *.
  - rewrite app_nil_r. now apply HS.
  - rewrite app_assoc. apply (IH (step p e)); [| |exact Hg].
    + intros i Hi. apply elem_of_app.
      destruct e as [|n r|v|]; simpl in *.
      * destruct (p_interval p) eqn:I; simpl in Hi; left; apply HI; congruence.
      * destruct (p_inflight p !! n); [|left; now apply HI].
        destruct r as [next|]; [|left; now apply HI].
        unfold applySetJobStatus in Hi. simpl in Hi.
        destruct (p_mounted p); simpl in Hi; [|left; now apply HI].
        destruct (isTerminal next); [discriminate|].
        injection Hi as <-. right. simpl. now left.
      * unfold applySetJobStatus in Hi.
        destruct (p_mounted p); simpl in Hi; [|left; now apply HI].
        destruct v as [j|]; simpl in Hi; [|discriminate].
        destruct (isTerminal j); [discriminate|].
        injection Hi as <-. right. simpl. now left.
      * discriminate.
    + intros h Hh. apply elem_of_app. left.
      destruct e as [|n r|v|]; simpl in *.
      * destruct (p_interval p) as [i|] eqn:I; simpl in Hh; [|now apply HS].
        apply elem_of_cons in Hh as [-> | Hh]; [now apply HI | now apply HS].
      * destruct (p_inflight p !! n); [|now apply HS].
        destruct r as [next|]; [|now apply HS].
        unfold applySetJobStatus in Hh. simpl in Hh.
        destruct (p_mounted p); now apply HS.
      * unfold applySetJobStatus in Hh.
        destruct (p_mounted p); now apply HS.
      * now apply HS.
Qed.

Lemma idle_without_upload (es : list Event) (p : Poller) :
  p_jobStatus p = None -> p_interval p = None -> p_inflight p = [] ->
  forallb (fun e => negb (isUpload e)) es = true ->
  p_sent (run p es) = p_sent p.
Proof.
  revert p. induction es as [|e es IH]; intros p J I F U; simpl in *; [reflexivity|].
  apply andb_prop in U as [Ue Us].
  assert (step p e = p
          \/ (p_jobStatus (step p e) = None /\ p_interval (step p e) = None
              /\ p_inflight (step p e) = [] /\ p_sent (step p e) = p_sent p))
    as [-> | (J' & I' & F' & S')].
  { destruct e as [|n r|v|]; simpl in *.
    - left. now rewrite I.
    - left. now rewrite F.
    - destruct v as [j|]; [discriminate|]. right.
      unfold applySetJobStatus. destruct (p_mounted p); simpl; auto.
    - right. auto. }
  - now apply IH.
  - rewrite IH; auto.
Qed.

(** X11.  From mounting on, every status request is for a job whose
    status was written into [jobStatus] by an earlier event, an upload or
    a response; and as long as no upload has set a job status, nothing is
    polled, whatever else happens. *)
Theorem polls_only_known_jobs (es : list Event) :
  (forall g, g ∈ p_sent (run mount es) -> g ∈ es ≫= writes)
  /\ (forallb (fun e => negb (isUpload e)) es = true ->
      p_sent (run mount es) = []).
Proof.
  split.
  - intros g Hg.
    apply (polled_were_written es mount []); [discriminate | | exact Hg].
    intros h Hh. inversion Hh.
  - intros U. now rewrite idle_without_upload.
Qed.

End UploadMore.

Lemma polls_only_known_jobs_witness :
  Dashboard.p_sent
    (Dashboard.run Dashboard.mount
       [Dashboard.Tick; Dashboard.Respond 0 (Some (Dashboard.sampleStatus "in_progress" 1));
        Dashboard.SetJobStatus None; Dashboard.Tick])
  = [].
Proof.
  apply (polls_only_known_jobs
           [Dashboard.Tick;
            Dashboard.Respond 0 (Some (Dashboard.sampleStatus "in_progress" 1));
            Dashboard.SetJobStatus None; Dashboard.Tick]).
  reflexivity.
Defined.

(** ** What is shown *)
Section DisplayMore.
Import JsString Page App.

Lemma sliceStart_split (n : nat) (s : string) :
  exists rest,
    s = sliceStart n s +:+ rest
    /\ String.length (sliceStart n s) = Nat.min n (String.length s)
    /\ (rest = "" <-> (String.length s <= n)%nat).
Proof.
  revert s. induction n as [|n IH]; intros s.
  - exists s. simpl. split; [reflexivity|]. split; [reflexivity|].
    destruct s; simpl; split; intros H; try reflexivity; try discriminate; lia.
  - destruct s as [|c s]; simpl.
    + exists "". repeat split; lia.
    + destruct (IH s) as (rest & E & L & Z). exists rest.
      split.
      { change (String c s = String c (sliceStart n s +:+ rest)). now rewrite <- E. }
      split; [now rewrite L|].
      rewrite Z. lia.
Qed.

(** X12.  The preview of a document match never hides text silently:
    what is shown is at most 320 units long and is the beginning of the
    content, and the ellipsis follows exactly when something was cut off;
    a missing content shows as the empty text without ellipsis. *)
Theorem contentPreview_faithful (content : option string) :
  let text := default "" content in
  let shown := (contentPreview content).1 in
  let more := (contentPreview content).2 in
  (String.length shown <= 320)%nat
  /\ (exists rest, text = shown +:+ rest /\ (more = false <-> rest = ""))
  /\ (content = None -> shown = "" /\ more = false).
Proof.
  cbv zeta. unfold contentPreview. cbn [fst snd].
  destruct (sliceStart_split 320 (default "" content)) as (rest & E & L & Z).
  split; [rewrite L; apply Nat.le_min_l|]. split.
  - exists rest. split; [exact E|]. rewrite Z. apply Nat.ltb_ge.
  - now intros ->.
Qed.

(** X13.  Toggling the colour mode always changes it and toggling twice
    restores it; the theme chosen has the mode as its palette mode, so
    the icon on the toggle button changes with every toggle. *)
Theorem toggleColorMode_flips (m : Mode) :
  toggleColorMode m <> m
  /\ toggleColorMode (toggleColorMode m) = m
  /\ paletteMode (theme m) = m
  /\ toggleIcon (theme (toggleColorMode m)) <> toggleIcon (theme m).
Proof.
  destruct m; repeat split; discriminate.
Qed.

End DisplayMore.

Lemma contentPreview_faithful_witness :
  (Page.contentPreview None).1 = "" /\ (Page.contentPreview None).2 = false.
Proof.
  pose proof (contentPreview_faithful None) as H.
  cbv zeta in H. destruct H as (_ & _ & H). exact (H eq_refl).
Defined.
